(** * Verification of two python-docs-samples scripts

    - [composer/airflow_1_samples/bq_copy_across_locations.py]: an Airflow DAG
      definition that reads a CSV list of (source, destination) tables and
      declares, for each row, the chain export -> relocate -> import between
      the two sentinel tasks [start] and [end];
    - [compute/client_library/snippets/images/get.py]: two wrappers around
      the compute provider's image client.

    The scripts are embedded shallowly.  Python statements become
    computations in a state-and-exception monad: the state holds what the
    module mutates (the application log and the DAG under construction), an
    outcome is either a returned value or a raised exception, and a raise
    keeps the state reached so far. *)

From Stdlib Require Import ZArith Ascii.
From stdpp Require Import base strings list gmap.

Local Open Scope Z_scope.
Local Open Scope nat_scope.

(** ** Python run-time notions the scripts rely on *)

Module Py.

(** The exception classes that can reach the scripts.  The first four form
    the [OSError] family; in Python 3 [IOError] is an alias of [OSError]. *)
Inductive exn : Type :=
| OSError
| FileNotFoundError
| PermissionError
| IsADirectoryError
| UnicodeDecodeError
| csv_Error
| StopIteration
| IndexError
| TypeError
| KeyError (key : string).

(** [isinstance(e, IOError)], the test made by [except IOError]. *)
Definition is_IOError (e : exn) : bool :=
  match e with
  | OSError | FileNotFoundError | PermissionError | IsADirectoryError => true
  | _ => false
  end.

Inductive outcome (A : Type) : Type :=
| Return (a : A)
| Raise (e : exn).
Arguments Return {A} a.
Arguments Raise {A} e.

(** [str.startswith]. *)
Fixpoint startswith (s prefix : string) : bool :=
  match prefix, s with
  | EmptyString, _ => true
  | String p prefix', String c s' =>
      if decide (p = c) then startswith s' prefix' else false
  | String _ _, EmptyString => false
  end.

(** [str.replace(old, new)]: occurrences of [old] are replaced from left
    to right and do not overlap.  [skip] counts the characters of a match
    that are still to be dropped.  (With an empty [old] Python inserts
    [new] around every character; so does this.) *)
Fixpoint replace_from (old new : string) (skip : nat) (s : string) : string :=
  match s with
  | EmptyString =>
      match old with EmptyString => new | _ => EmptyString end
  | String c s' =>
      match skip with
      | S k => replace_from old new k s'
      | O =>
          match old with
          | EmptyString => new +:+ String c (replace_from old new 0 s')
          | String _ _ =>
              if startswith s old
              then new +:+ replace_from old new (String.length old - 1) s'
              else String c (replace_from old new 0 s')
          end
      end
  end.

Definition replace (s old new : string) : string := replace_from old new 0 s.

(** [c in s] for a one-character [c]. *)
Fixpoint contains_char (c : ascii) (s : string) : bool :=
  match s with
  | EmptyString => false
  | String c' s' => if decide (c = c') then true else contains_char c s'
  end.

(** [list[i]] for a non-negative literal index. *)
Definition getitem {A} (l : list A) (i : nat) : outcome A :=
  match l !! i with
  | Some x => Return x
  | None => Raise IndexError
  end.

(** What [csv.reader(f)] does as it is iterated over an open text file:
    it yields a row (a list of fields), is exhausted, or raises (a read
    error, a decoding error, a [csv.Error]). *)
Inductive csv_reader : Type :=
| Exhausted
| Yield (row : list string) (rest : csv_reader)
| Fails (e : exn).

(** What [io.open(path, "rt", encoding="utf-8")] does for a path. *)
Inductive open_result : Type :=
| OpenFails (e : exn)
| Opened (contents : csv_reader).

Definition filesystem : Type := string → open_result.

(** A reader over a file that is read without error: its rows, in order. *)
Fixpoint yield_all (rows : list (list string)) (rest : csv_reader) : csv_reader :=
  match rows with
  | [] => rest
  | row :: rows' => Yield row (yield_all rows' rest)
  end.

Definition readable (rows : list (list string)) : csv_reader :=
  yield_all rows Exhausted.

End Py.
Export Py.


(** ** [bq_copy_across_locations.py] *)

Module BqCopy.

(** One element of [table_list]: the dict
    [{"table_source": row[0], "table_dest": row[1]}]. *)
Record record : Type := {
  table_source : string;
  table_dest : string;
}.

(** *** The application logger

    The log is the sequence of calls made on [logger]: level, message
    object and the positional arguments given after the message. *)
Inductive level : Type := INFO | ERROR.

Inductive message : Type :=
| Text (s : string)
| RowMessage (row : list string)
| TextAndRecord (prefix : string) (r : record).

Record log_entry : Type := {
  log_level : level;
  log_msg : message;
  log_args : list exn;
}.

(** *** Tasks and the DAG *)

(** The keyword arguments each operator is constructed with, apart from
    [task_id]. *)
Inductive operator : Type :=
| DummyOperator (trigger_rule : string)
| BigQueryToCloudStorageOperator
    (source_project_dataset_table : string)
    (destination_cloud_storage_uris : list string)
    (export_format : string)
| GoogleCloudStorageToGoogleCloudStorageOperator
    (source_bucket source_object destination_bucket : string)
| GoogleCloudStorageToBigQueryOperator
    (bucket : string)
    (source_objects : list string)
    (destination_project_dataset_table source_format write_disposition : string)
    (autodetect : bool).

Record task : Type := {
  task_id : string;
  task_operator : operator;
}.

(** Datetimes and timedeltas, in microseconds. *)
Definition timedelta (days minutes : Z) : Z :=
  ((days * 86400 + minutes * 60) * 1000000)%Z.

Record default_args_t : Type := {
  owner : string;
  start_date : Z;
  depends_on_past : bool;
  email : list string;
  email_on_failure : bool;
  email_on_retry : bool;
  retries : nat;
  retry_delay : Z;
}.

(** A DAG: its constructor arguments, the tasks created inside its context
    in creation order, and the dependencies declared with [>>].  A task
    object is identified by its position in [tasks]; an edge [(a, b)] says
    that task [b] is downstream of task [a]. *)
Record DAG : Type := {
  dag_id : string;
  dag_default_args : default_args_t;
  schedule_interval : option string;
  tasks : list task;
  edges : list (nat * nat);
}.

Definition models_DAG (id : string) (args : default_args_t)
    (schedule : option string) : DAG :=
  {| dag_id := id; dag_default_args := args; schedule_interval := schedule;
     tasks := []; edges := [] |}.

(** *** The state-and-exception monad *)

Record state : Type := {
  logs : list log_entry;
  dag : DAG;
}.

Definition M (A : Type) : Type := state → outcome A * state.

#[export] Instance M_ret : MRet M := λ A a st, (Return a, st).

#[export] Instance M_bind : MBind M := λ A B f m st,
  match m st with
  | (Return a, st') => f a st'
  | (Raise e, st') => (Raise e, st')
  end.

Definition raise {A} (e : exn) : M A := λ st, (Raise e, st).

Definition lift {A} (o : outcome A) : M A := λ st, (o, st).

(** [try: body except <class> as e: handler e]. *)
Definition try_except {A} (body : M A) (catches : exn → bool)
    (handler : exn → M A) : M A := λ st,
  match body st with
  | (Return a, st') => (Return a, st')
  | (Raise e, st') => if catches e then handler e st' else (Raise e, st')
  end.

Definition log_call (l : level) (msg : message) (args : list exn) : M unit :=
  λ st, (Return (),
         {| logs := logs st ++ [{| log_level := l; log_msg := msg; log_args := args |}];
            dag := dag st |}).

Definition logger_info (msg : message) : M unit := log_call INFO msg [].

Definition logger_error (msg : message) (args : list exn) : M unit :=
  log_call ERROR msg args.

(** *** Module-level values *)

Definition yesterday (now : Z) : Z := (now - timedelta 1 0)%Z.

Definition default_args (now : Z) : default_args_t :=
  {| owner := "airflow";
     start_date := yesterday now;
     depends_on_past := false;
     email := [""];
     email_on_failure := false;
     email_on_retry := false;
     retries := 1;
     retry_delay := timedelta 0 5 |}.

Definition source_bucket : string := "{{var.value.gcs_source_bucket}}".

Definition dest_bucket : string := "{{var.value.gcs_dest_bucket}}".

(** *** [read_table_list] *)

Definition io_open (fs : filesystem) (path : string) : M csv_reader :=
  match fs path with
  | OpenFails e => raise e
  | Opened contents => mret contents
  end.

(** [next(csv_reader)]: the row read and the reader advanced past it. *)
Definition next (csv_reader : csv_reader) : M (list string * Py.csv_reader) :=
  match csv_reader with
  | Exhausted => raise StopIteration
  | Fails e => raise e
  | Yield row rest => mret (row, rest)
  end.

(** [for row in csv_reader: ...], threading the list the body appends to. *)
Fixpoint for_row_in (csv_reader : csv_reader) (table_list : list record)
    : M (list record) :=
  match csv_reader with
  | Exhausted => mret table_list
  | Fails e => raise e
  | Yield row rest =>
      logger_info (RowMessage row);;
      row_0 ← lift (getitem row 0);
      row_1 ← lift (getitem row 1);
      let table_tuple := {| table_source := row_0; table_dest := row_1 |} in
      for_row_in rest (table_list ++ [table_tuple])
  end.

(** The function returns [Some table_list] from inside the [try], and
    Python's [None] when the handler has run and the body falls off its
    end.  Leaving the [with] block closes the file and lets exceptions
    through; closing changes nothing the state records. *)
Definition read_table_list (fs : filesystem) (table_list_file : string)
    : M (option (list record)) :=
  let table_list := [] in
  logger_info (Text ("Reading table_list_file from : " +:+ table_list_file));;
  try_except
    (csv_reader ← io_open fs table_list_file;
     '(_, csv_reader) ← next csv_reader;
     table_list ← for_row_in csv_reader table_list;
     mret (Some table_list))
    is_IOError
    (λ e,
      logger_error
        (Text ("Error opening table_list_file " +:+ table_list_file +:+ ": ")) [e];;
      mret None).

(** *** The DAG definition *)

(** Constructing an operator inside [with models.DAG(...) as dag] adds the
    new task object to the DAG; the result is the object's handle. *)
Definition new_task (t : task) : M nat := λ st,
  let d := dag st in
  (Return (length (tasks d)),
   {| logs := logs st;
      dag := {| dag_id := dag_id d; dag_default_args := dag_default_args d;
                schedule_interval := schedule_interval d;
                tasks := tasks d ++ [t]; edges := edges d |} |}).

(** [a >> b] makes [b] downstream of [a] and evaluates to [b]. *)
Definition rshift (a b : nat) : M nat := λ st,
  let d := dag st in
  (Return b,
   {| logs := logs st;
      dag := {| dag_id := dag_id d; dag_default_args := dag_default_args d;
                schedule_interval := schedule_interval d;
                tasks := tasks d; edges := edges d ++ [(a, b)] |} |}).

(** [models.Variable.get(key)] on the orchestrator's variable store. *)
Definition Variable_get (variables : gmap string string) (key : string)
    : M string :=
  match variables !! key with
  | Some v => mret v
  | None => raise (KeyError key)
  end.

(** The three operators of one record, as the loop body constructs them. *)
Definition BQ_to_GCS (table_source : string) : task :=
  {| task_id := replace table_source ":" "_" +:+ "_BQ_to_GCS";
     task_operator :=
       BigQueryToCloudStorageOperator
         table_source
         ["gs://" +:+ source_bucket +:+ "/" +:+ table_source +:+ "-*.avro"]
         "AVRO" |}.

Definition GCS_to_GCS (table_source : string) : task :=
  {| task_id := replace table_source ":" "_" +:+ "_GCS_to_GCS";
     task_operator :=
       GoogleCloudStorageToGoogleCloudStorageOperator
         source_bucket
         (table_source +:+ "-*.avro")
         dest_bucket |}.

Definition GCS_to_BQ (table_source table_dest : string) : task :=
  {| task_id := replace table_dest ":" "_" +:+ "_GCS_to_BQ";
     task_operator :=
       GoogleCloudStorageToBigQueryOperator
         dest_bucket
         [table_source +:+ "-*.avro"]
         table_dest
         "AVRO"
         "WRITE_TRUNCATE"
         true |}.

(** The body of [for record in all_records]. *)
Definition loop_body (start end_ : nat) (record : record) : M unit :=
  logger_info (TextAndRecord "Generating tasks to transfer table: " record);;
  let table_source := table_source record in
  let table_dest := table_dest record in
  BQ_to_GCS ← new_task (BQ_to_GCS table_source);
  GCS_to_GCS ← new_task (GCS_to_GCS table_source);
  GCS_to_BQ ← new_task (GCS_to_BQ table_source table_dest);
  t ← rshift start BQ_to_GCS;
  t ← rshift t GCS_to_GCS;
  t ← rshift t GCS_to_BQ;
  _ ← rshift t end_;
  mret ().

Fixpoint for_record_in (records : list record) (body : record → M unit)
    : M unit :=
  match records with
  | [] => mret ()
  | record :: records' => body record;; for_record_in records' body
  end.

(** Iterating over [None] raises [TypeError]. *)
Definition for_in (all_records : option (list record))
    (body : record → M unit) : M unit :=
  match all_records with
  | None => raise TypeError
  | Some records => for_record_in records body
  end.

(** What the module reads from outside: the orchestrator's variables, the
    file system and the clock. *)
Record env : Type := {
  variables : gmap string string;
  fs : filesystem;
  now : Z;
}.

(** The body of [with models.DAG(...) as dag]. *)
Definition dag_body (e : env) : M unit :=
  start ← new_task
    {| task_id := "start"; task_operator := DummyOperator "all_success" |};
  end_ ← new_task
    {| task_id := "end"; task_operator := DummyOperator "all_success" |};
  table_list_file_path ← Variable_get (variables e) "table_list_file_path";
  all_records ← read_table_list (fs e) table_list_file_path;
  for_in all_records (loop_body start end_).

(** Loading the module: a fresh DAG is created and the body runs in it.
    [log] is what the logger has received before. *)
Definition load (e : env) (log : list log_entry) : outcome unit * state :=
  dag_body e
    {| logs := log;
       dag := models_DAG "composer_sample_bq_copy_across_locations"
                (default_args (now e)) None |}.

(** The graph as the orchestrator identifies it: task identifiers and the
    dependencies between them. *)
Definition task_ids (d : DAG) : list string := task_id <$> tasks d.

Definition id_of (d : DAG) (a : nat) : string :=
  default "" (task_id <$> tasks d !! a).

Definition edge_ids (d : DAG) : list (string * string) :=
  (λ ab, (id_of d ab.1, id_of d ab.2)) <$> edges d.

End BqCopy.

(** ** [images/get.py] *)

Module Images.

(** The keyword arguments of the two client calls. *)
Record get_from_family_kwargs : Type := {
  gff_project : string;
  gff_family : string;
}.

Record get_kwargs : Type := {
  get_project : string;
  get_image_arg : string;
}.

Section Client.

(** [compute_v1] is the provider's SDK: the wrappers are verified for any
    behaviour of its client.  [world] is whatever the SDK reads and changes
    (credentials, the network, the provider's inventory). *)
Context {world ImagesClient_t Image : Type}.
Variable ImagesClient : world → outcome ImagesClient_t * world.
Variable get_from_family_method :
  ImagesClient_t → get_from_family_kwargs → world → outcome Image * world.
Variable get_method :
  ImagesClient_t → get_kwargs → world → outcome Image * world.

Definition get_image_from_family (project family : string)
    : world → outcome Image * world := λ w,
  match ImagesClient w with
  | (Return image_client, w') =>
      get_from_family_method image_client
        {| gff_project := project; gff_family := family |} w'
  | (Raise e, w') => (Raise e, w')
  end.

Definition get_image (project_id image_name : string)
    : world → outcome Image * world := λ w,
  match ImagesClient w with
  | (Return image_client, w') =>
      get_method image_client
        {| get_project := project_id; get_image_arg := image_name |} w'
  | (Raise e, w') => (Raise e, w')
  end.

End Client.

End Images.

(** ** Vocabulary of the statements *)

Import BqCopy.

Definition add_logs (entries : list log_entry) (st : state) : state :=
  {| logs := logs st ++ entries; dag := dag st |}.

Definition info (msg : message) : log_entry :=
  {| log_level := INFO; log_msg := msg; log_args := [] |}.

Definition reading_entry (path : string) : log_entry :=
  info (Text ("Reading table_list_file from : " +:+ path)).

Definition error_entry (path : string) (e : exn) : log_entry :=
  {| log_level := ERROR;
     log_msg := Text ("Error opening table_list_file " +:+ path +:+ ": ");
     log_args := [e] |}.

(** [r] is the record of [row]: first field to [table_source], second to
    [table_dest]. *)
Definition row_record (row : list string) (r : record) : Prop :=
  row !! 0 = Some (table_source r) ∧ row !! 1 = Some (table_dest r).

Definition two_fields (row : list string) : Prop := 2 ≤ length row.

(** A well-formed configuration file: it is read without error, starts with
    a header row, and each of its data rows [rows] has at least two
    fields. *)
Definition well_formed (contents : csv_reader) (rows : list (list string))
    : Prop :=
  ∃ header, contents = readable (header :: rows) ∧ Forall two_fields rows.

Definition start_task : task :=
  {| task_id := "start"; task_operator := DummyOperator "all_success" |}.

Definition end_task : task :=
  {| task_id := "end"; task_operator := DummyOperator "all_success" |}.

(** The chain of one record, and the four edges that wire a chain whose
    head has handle [h] between [start] and [end_]. *)
Definition chain (r : record) : list task :=
  [BQ_to_GCS (table_source r);
   GCS_to_GCS (table_source r);
   GCS_to_BQ (table_source r) (table_dest r)].

Definition chain_edges (start end_ h : nat) : list (nat * nat) :=
  [(start, h); (h, h + 1); (h + 1, h + 2); (h + 2, end_)].

Fixpoint chains_edges (start end_ h n : nat) : list (nat * nat) :=
  match n with
  | O => []
  | S n' => chain_edges start end_ h ++ chains_edges start end_ (h + 3) n'
  end.

Definition generating_entry (r : record) : log_entry :=
  info (TextAndRecord "Generating tasks to transfer table: " r).

(** The records read, or none when the read did not return a list. *)
Definition records_of (r : outcome (option (list record))) : list record :=
  match r with
  | Return (Some records) => records
  | _ => []
  end.

(** A topological rank for the handles of a loaded graph: [start] first,
    then the export, relocate and import tasks, [end] last. *)
Definition rank (a : nat) : nat :=
  match a with
  | 0 => 0
  | 1 => 4
  | _ => 1 + (a - 2) mod 3
  end.

(** The path the module reads its table list from. *)
Definition configured (e : env) (path : string) : Prop :=
  variables e !! "table_list_file_path" = Some path.

Definition colon_to_underscore (c : ascii) : ascii :=
  if decide (c = ":"%char) then "_"%char else c.

(** ** Running the model on the scenario of the specification *)

Definition scenario_fs : filesystem := λ path,
  if decide (path = "/home/airflow/gcs/data/table_list.csv")
  then Opened (readable [["source"; "dest"]; ["proj:ds.src"; "proj:ds.dst"]])
  else if decide (path = "/home/airflow/gcs/data/header_only.csv")
  then Opened (readable [["source"; "dest"]])
  else if decide (path = "/home/airflow/gcs/data/short_row.csv")
  then Opened (readable [["source"; "dest"]; ["proj:ds.src"]])
  else if decide (path = "/home/airflow/gcs/data/empty.csv")
  then Opened (readable [])
  else if decide (path = "/home/airflow/gcs/data/clash.csv")
  then Opened (readable [["source"; "dest"];
                         ["proj:ds.t"; "proj:ds.a"];
                         ["proj_ds.t"; "proj:ds.b"]])
  else OpenFails FileNotFoundError.

Definition scenario_env (path : string) (now : Z) : env :=
  {| variables := {["table_list_file_path" := path]};
     fs := scenario_fs;
     now := now |}.

Definition fresh_state : state :=
  {| logs := []; dag := models_DAG "" (default_args 0) None |}.

(** A toy provider for running the image wrappers: the world is the list
    of requests served so far, an image is described by its path. *)
Definition demo_ImagesClient (w : list string) : outcome () * list string :=
  (Return (), w).

Definition demo_get (_ : ()) (kw : Images.get_kwargs) (w : list string)
    : outcome string * list string :=
  let name := Images.get_project kw +:+ "/images/" +:+ Images.get_image_arg kw in
  (Return name, w ++ [name]).

Definition demo_get_from_family (_ : ())
    (kw : Images.get_from_family_kwargs) (w : list string)
    : outcome string * list string :=
  if decide (Images.gff_family kw = "debian-11")
  then (Return (Images.gff_project kw +:+ "/images/debian-11-v1"),
        w ++ [Images.gff_family kw])
  else (Raise (KeyError (Images.gff_family kw)), w).

(** The dependency relation of a DAG on task handles. *)
Definition edge_rel (d : DAG) (a b : nat) : Prop := (a, b) ∈ edges d.



(** Further files: one that stops decoding after its first data row, one
    whose disk read fails after its first data row, and two that differ
    only in the header and in columns after the second. *)
Definition failing_fs : filesystem := λ path,
  if decide (path = "/data/undecodable.csv")
  then Opened (yield_all [["source"; "dest"]; ["proj:ds.src"; "proj:ds.dst"]]
                 (Fails UnicodeDecodeError))
  else if decide (path = "/data/disk_error.csv")
  then Opened (yield_all [["source"; "dest"]; ["proj:ds.src"; "proj:ds.dst"]]
                 (Fails OSError))
  else if decide (path = "/data/wide.csv")
  then Opened (readable [["src"; "dst"; "comment"];
                         ["proj:ds.src"; "proj:ds.dst"; "nightly"; "x"]])
  else if decide (path = "/data/narrow.csv")
  then Opened (readable [["source"; "dest"]; ["proj:ds.src"; "proj:ds.dst"]])
  else if decide (path = "/data/late_short_row.csv")
  then Opened (readable [["source"; "dest"];
                         ["proj:ds.a"; "proj:ds.b"];
                         ["proj:ds.c"];
                         ["proj:ds.d"; "proj:ds.e"]])
  else OpenFails PermissionError.

Definition failing_env (path : string) : env :=
  {| variables := {["table_list_file_path" := path]};
     fs := failing_fs;
     now := 0 |}.

Definition unconfigured_env : env :=
  {| variables := {["gcs_source_bucket" := "bucket-us"]};
     fs := scenario_fs;
     now := 0 |}.

Example replace_colons : replace "proj:ds.src" ":" "_" = "proj_ds.src".
Proof. reflexivity. Qed.

Example replace_no_overlap : replace "aaaa" "aa" "b" = "bb".
Proof. reflexivity. Qed.

Example replace_longer : replace "a::b:c" "::" "-" = "a-b:c".
Proof. reflexivity. Qed.

Example replace_empty_old : replace "abc" "" "-" = "-a-b-c-".
Proof. reflexivity. Qed.

Example scenario_records :
  (read_table_list scenario_fs "/home/airflow/gcs/data/table_list.csv"
     fresh_state).1
  = Return (Some [{| table_source := "proj:ds.src"; table_dest := "proj:ds.dst" |}]).
Proof. reflexivity. Qed.

Example scenario_edges :
  edge_ids (dag (load (scenario_env "/home/airflow/gcs/data/table_list.csv" 0) []).2)
  = [("start", "proj_ds.src_BQ_to_GCS");
     ("proj_ds.src_BQ_to_GCS", "proj_ds.src_GCS_to_GCS");
     ("proj_ds.src_GCS_to_GCS", "proj_ds.dst_GCS_to_BQ");
     ("proj_ds.dst_GCS_to_BQ", "end")].
Proof. vm_compute. reflexivity. Qed.

(** ** The log is append-only *)

Lemma add_logs_nil st : add_logs [] st = st.
Proof. destruct st as [l d]. unfold add_logs; simpl. by rewrite app_nil_r. Qed.

Lemma add_logs_app es1 es2 st :
  add_logs es2 (add_logs es1 st) = add_logs (es1 ++ es2) st.
Proof. unfold add_logs; simpl. by rewrite app_assoc. Qed.

(** Unfolding of the monad's operations in a goal. *)
Ltac run :=
  repeat (unfold mbind, M_bind, mret, M_ret, lift, raise, try_except,
            logger_info, logger_error, log_call, new_task, rshift; simpl).

Lemma add_logs_info msg st :
  {| logs := logs st ++ [info msg]; dag := dag st |} = add_logs [info msg] st.
Proof. reflexivity. Qed.

(** ** [read_table_list]: the loop over the rows *)

(** Rows with two fields or more are all read, in order. *)
Lemma for_row_in_two_fields rows :
  Forall two_fields rows →
  ∃ records,
    Forall2 row_record rows records ∧
    ∀ rest table_list st,
      for_row_in (yield_all rows rest) table_list st
      = for_row_in rest (table_list ++ records)
          (add_logs (info ∘ RowMessage <$> rows) st).
Proof.
  induction 1 as [|row rows Hrow _ (records & Hrec & IH)].
  - exists []. split; [constructor|].
    intros rest table_list st. simpl. by rewrite app_nil_r, add_logs_nil.
  - destruct row as [|row_0 [|row_1 extra]];
      [unfold two_fields in Hrow; simpl in Hrow; lia ..|].
    exists ({| table_source := row_0; table_dest := row_1 |} :: records).
    split; [by constructor|].
    intros rest table_list st. simpl. run. fold (info (RowMessage (row_0 :: row_1 :: extra))).
    rewrite add_logs_info, IH, add_logs_app, <- app_assoc. reflexivity.
Qed.

(** The first row with fewer than two fields stops the loop with
    [IndexError]; up to there only [INFO] entries are logged. *)
Lemma for_row_in_short_row rows :
  Exists (λ row, length row < 2) rows →
  ∀ table_list st,
    ∃ entries,
      for_row_in (readable rows) table_list st
      = (Raise IndexError, add_logs entries st)
      ∧ Forall (λ entry, log_level entry = INFO) entries.
Proof.
  induction rows as [|row rows IH]; intros Hex table_list st.
  - by apply Exists_nil in Hex.
  - destruct row as [|row_0 [|row_1 extra]].
    + exists [info (RowMessage [])]. split; [reflexivity|]. by repeat constructor.
    + exists [info (RowMessage [row_0])]. split; [reflexivity|].
      by repeat constructor.
    + apply Exists_cons in Hex as [Hshort|Hex]; [simpl in Hshort; lia|].
      destruct (IH Hex
        (table_list ++ [{| table_source := row_0; table_dest := row_1 |}])
        (add_logs [info (RowMessage (row_0 :: row_1 :: extra))] st))
        as (entries & Hrun & Hinfo).
      exists (info (RowMessage (row_0 :: row_1 :: extra)) :: entries).
      split; [|by constructor].
      unfold readable in *. simpl. run.
      fold (info (RowMessage (row_0 :: row_1 :: extra))).
      rewrite add_logs_info, Hrun, add_logs_app. reflexivity.
Qed.

(** The loop never touches the DAG, and its outcome does not depend on
    the state it starts from. *)
Lemma for_row_in_dag csv_reader :
  ∀ table_list st, dag (for_row_in csv_reader table_list st).2 = dag st.
Proof.
  induction csv_reader as [|row rest IH|e]; intros table_list st; [done| |done].
  destruct row as [|row_0 [|row_1 extra]]; [done ..|].
  simpl. run. by rewrite IH.
Qed.

Lemma for_row_in_outcome csv_reader :
  ∀ table_list st st',
    (for_row_in csv_reader table_list st).1
    = (for_row_in csv_reader table_list st').1.
Proof.
  induction csv_reader as [|row rest IH|e]; intros table_list st st';
    [done| |done].
  destruct row as [|row_0 [|row_1 extra]]; [done ..|].
  simpl. run. apply IH.
Qed.

(** ** [read_table_list] *)

(** What the function does once the file is open, by the first thing the
    reader does. *)
Lemma read_table_list_opened fs path contents st :
  fs path = Opened contents →
  read_table_list fs path st
  = match contents with
    | Exhausted => (Raise StopIteration, add_logs [reading_entry path] st)
    | Fails e =>
        if is_IOError e
        then (Return None, add_logs [reading_entry path; error_entry path e] st)
        else (Raise e, add_logs [reading_entry path] st)
    | Yield _ rest =>
        match for_row_in rest [] (add_logs [reading_entry path] st) with
        | (Return table_list, st') => (Return (Some table_list), st')
        | (Raise e, st') =>
            if is_IOError e
            then (Return None, add_logs [error_entry path e] st')
            else (Raise e, st')
        end
    end.
Proof.
  intros Hopen. unfold read_table_list, io_open. rewrite Hopen.
  destruct contents as [|header rest|e]; run.
  - reflexivity.
  - fold (reading_entry path). fold (add_logs [reading_entry path] st).
    destruct (for_row_in rest [] _) as [[table_list|e] st']; [done|].
    destruct (is_IOError e); done.
  - destruct (is_IOError e); unfold add_logs; simpl; [|done].
    by rewrite <- app_assoc.
Qed.

Lemma read_table_list_open_fails fs path e st :
  fs path = OpenFails e →
  read_table_list fs path st
  = if is_IOError e
    then (Return None, add_logs [reading_entry path; error_entry path e] st)
    else (Raise e, add_logs [reading_entry path] st).
Proof.
  intros Hopen. unfold read_table_list, io_open. rewrite Hopen. run.
  destruct (is_IOError e); unfold add_logs; simpl; [|done].
  by rewrite <- app_assoc.
Qed.

Lemma read_table_list_dag fs path st :
  dag (read_table_list fs path st).2 = dag st.
Proof.
  destruct (fs path) as [e|contents] eqn:Hopen.
  - rewrite (read_table_list_open_fails _ _ _ _ Hopen).
    by destruct (is_IOError e).
  - rewrite (read_table_list_opened _ _ _ _ Hopen).
    destruct contents as [|header rest|e]; [done| |by destruct (is_IOError e)].
    pose proof (for_row_in_dag rest [] (add_logs [reading_entry path] st)) as Hdag.
    destruct (for_row_in rest [] _) as [[table_list|e] st']; [done|].
    by destruct (is_IOError e).
Qed.

(** The outcome is determined by what the path opens to. *)
Lemma read_table_list_outcome fs1 path1 st1 fs2 path2 st2 :
  fs1 path1 = fs2 path2 →
  (read_table_list fs1 path1 st1).1 = (read_table_list fs2 path2 st2).1.
Proof.
  intros Hsame. destruct (fs2 path2) as [e|contents] eqn:Hopen.
  - rewrite (read_table_list_open_fails _ _ _ _ Hsame),
      (read_table_list_open_fails _ _ _ _ Hopen).
    by destruct (is_IOError e).
  - rewrite (read_table_list_opened _ _ _ _ Hsame),
      (read_table_list_opened _ _ _ _ Hopen).
    destruct contents as [|header rest|e]; [done| |by destruct (is_IOError e)].
    pose proof (for_row_in_outcome rest []
      (add_logs [reading_entry path1] st1)
      (add_logs [reading_entry path2] st2)) as Hout.
    destruct (for_row_in rest [] (add_logs [reading_entry path1] st1))
      as [[table_list1|e1] st1'],
      (for_row_in rest [] (add_logs [reading_entry path2] st2))
      as [[table_list2|e2] st2']; simpl in Hout; simplify_eq; [done|].
    by destruct (is_IOError e2).
Qed.

Lemma read_table_list_well_formed fs path contents rows st :
  fs path = Opened contents →
  well_formed contents rows →
  ∃ records,
    Forall2 row_record rows records ∧
    read_table_list fs path st
    = (Return (Some records),
       add_logs (reading_entry path :: (info ∘ RowMessage <$> rows)) st).
Proof.
  intros Hopen (header & -> & Hrows).
  destruct (for_row_in_two_fields rows Hrows) as (records & Hrec & Hrun).
  exists records. split; [done|].
  rewrite (read_table_list_opened _ _ _ _ Hopen). simpl.
  rewrite (Hrun Exhausted). simpl. by rewrite add_logs_app.
Qed.

(** C10. A readable but completely empty file: skipping the header raises
    [StopIteration], which is not an [IOError], so the local handler does
    not catch it.  The call raises; it neither returns a list nor takes the
    logged read-failure path (only the [INFO] entry of the start is
    logged). *)
Theorem C10_empty_file_raises_StopIteration fs path st :
  fs path = Opened Exhausted →
  is_IOError StopIteration = false
  ∧ read_table_list fs path st
    = (Raise StopIteration,
       add_logs
         [{| log_level := INFO;
             log_msg := Text ("Reading table_list_file from : " +:+ path);
             log_args := [] |}] st).
Proof.
  intros Hopen. split; [reflexivity|].
  by rewrite (read_table_list_opened _ _ _ _ Hopen).
Qed.

Lemma C10_witness :
  scenario_fs "/home/airflow/gcs/data/empty.csv" = Opened Exhausted
  ∧ (read_table_list scenario_fs "/home/airflow/gcs/data/empty.csv"
       fresh_state).1 = Raise StopIteration.
Proof.
  split; [reflexivity|].
  destruct (C10_empty_file_raises_StopIteration scenario_fs
              "/home/airflow/gcs/data/empty.csv" fresh_state) as [_ ->];
    reflexivity.
Defined.

(** C3. When opening the file raises an [IOError], or reading it does (at
    the header, or after data rows that were read), [read_table_list]
    returns [None] instead of raising, and the last thing it logs is an
    [ERROR] entry whose message names the path. *)
Theorem C3_io_error_logged_and_absent fs path e st :
  is_IOError e = true →
  (fs path = OpenFails e
   ∨ ∃ rows, fs path = Opened (yield_all rows (Fails e))
             ∧ Forall (λ row, 2 ≤ length row) (tail rows)) →
  ∃ entries,
    read_table_list fs path st
    = (Return None,
       add_logs
         (entries ++
          [{| log_level := ERROR;
              log_msg := Text ("Error opening table_list_file " +:+ path +:+ ": ");
              log_args := [e] |}]) st)
    ∧ Forall (λ entry, log_level entry = INFO) entries.
Proof.
  intros Hio [Hopen|(rows & Hopen & Hrows)].
  - exists [reading_entry path].
    rewrite (read_table_list_open_fails _ _ _ _ Hopen), Hio.
    split; [reflexivity|by repeat constructor].
  - rewrite (read_table_list_opened _ _ _ _ Hopen).
    destruct rows as [|header rows]; simpl in *.
    + exists [reading_entry path]. rewrite Hio.
      split; [reflexivity|by repeat constructor].
    + destruct (for_row_in_two_fields rows Hrows) as (records & _ & ->).
      simpl. rewrite Hio.
      exists (reading_entry path :: (info ∘ RowMessage <$> rows)).
      split.
      * by rewrite !add_logs_app.
      * constructor; [done|]. by apply Forall_fmap, Forall_true.
Qed.

Lemma C3_witness :
  (read_table_list scenario_fs "/no/such/file.csv" fresh_state).1
  = Return None.
Proof.
  destruct (C3_io_error_logged_and_absent scenario_fs "/no/such/file.csv"
              FileNotFoundError fresh_state eq_refl (or_introl eq_refl))
    as (entries & -> & _).
  reflexivity.
Defined.

(** C5 (as amended). For every readable file that has a header row and
    whose data rows all have at least two fields, [read_table_list] drops
    the header and returns one record per data row, in file order, the
    row's first field as [table_source] and its second as [table_dest]. *)
Theorem C5_records_in_file_order fs path header rows st :
  fs path = Opened (readable (header :: rows)) →
  Forall (λ row, 2 ≤ length row) rows →
  ∃ table_list,
    (read_table_list fs path st).1 = Return (Some table_list)
    ∧ Forall2
        (λ row r, row !! 0 = Some (table_source r)
                  ∧ row !! 1 = Some (table_dest r))
        rows table_list.
Proof.
  intros Hopen Hrows.
  destruct (read_table_list_well_formed fs path _ rows st Hopen)
    as (records & Hrec & ->); [by exists header|].
  by exists records.
Qed.

Lemma C5_witness :
  ∃ table_list,
    (read_table_list scenario_fs "/home/airflow/gcs/data/table_list.csv"
       fresh_state).1 = Return (Some table_list)
    ∧ Forall2
        (λ row r, row !! 0 = Some (table_source r)
                  ∧ row !! 1 = Some (table_dest r))
        [["proj:ds.src"; "proj:ds.dst"]] table_list.
Proof.
  apply (C5_records_in_file_order scenario_fs
           "/home/airflow/gcs/data/table_list.csv" ["source"; "dest"]).
  - reflexivity.
  - repeat constructor.
Defined.

(** C5 as stated fails: a readable file whose only data row has a single
    field yields no record list at all (the call raises [IndexError]). *)
Lemma C5_counterexample :
  scenario_fs "/home/airflow/gcs/data/short_row.csv"
  = Opened (readable [["source"; "dest"]; ["proj:ds.src"]])
  ∧ ¬ ∃ table_list,
        (read_table_list scenario_fs "/home/airflow/gcs/data/short_row.csv"
           fresh_state).1 = Return (Some table_list)
        ∧ Forall2
            (λ row r, row !! 0 = Some (table_source r)
                      ∧ row !! 1 = Some (table_dest r))
            [["proj:ds.src"]] table_list.
Proof.
  split; [reflexivity|].
  intros (table_list & Hret & _). vm_compute in Hret. discriminate Hret.
Qed.

(** C7. In a readable file with a header, a data row with fewer than two
    fields is not handled locally: the call raises [IndexError] to its
    caller ([IndexError] is not an [IOError]), nothing is logged at
    [ERROR] level, and no list is returned with the row left out. *)
Theorem C7_short_row_propagates fs path header rows st :
  fs path = Opened (readable (header :: rows)) →
  Exists (λ row, length row < 2) rows →
  is_IOError IndexError = false
  ∧ ∃ entries,
      read_table_list fs path st = (Raise IndexError, add_logs entries st)
      ∧ Forall (λ entry, log_level entry = INFO) entries.
Proof.
  intros Hopen Hshort. split; [reflexivity|].
  rewrite (read_table_list_opened _ _ _ _ Hopen). simpl.
  destruct (for_row_in_short_row rows Hshort []
              (add_logs [reading_entry path] st))
    as (entries & Hrun & Hinfo).
  fold (readable rows). rewrite Hrun. simpl.
  exists (reading_entry path :: entries).
  split; [by rewrite add_logs_app|by constructor].
Qed.

Lemma C7_witness :
  (read_table_list scenario_fs "/home/airflow/gcs/data/short_row.csv"
     fresh_state).1 = Raise IndexError.
Proof.
  destruct (C7_short_row_propagates scenario_fs
              "/home/airflow/gcs/data/short_row.csv" ["source"; "dest"]
              [["proj:ds.src"]] fresh_state eq_refl)
    as (_ & entries & -> & _).
  - apply Exists_cons_hd. simpl. lia.
  - reflexivity.
Defined.

(** ** The DAG definition: the loop over the records *)

Lemma loop_body_run start end_ record st :
  loop_body start end_ record st
  = (Return (),
     {| logs := logs st ++ [generating_entry record];
        dag :=
          {| dag_id := dag_id (dag st);
             dag_default_args := dag_default_args (dag st);
             schedule_interval := schedule_interval (dag st);
             tasks := tasks (dag st) ++ chain record;
             edges :=
               edges (dag st)
               ++ chain_edges start end_ (length (tasks (dag st))) |} |}).
Proof.
  unfold loop_body. run. rewrite !length_app. simpl.
  replace (length (tasks (dag st)) + 1 + 1)
    with (length (tasks (dag st)) + 2) by lia.
  rewrite <- !app_assoc. reflexivity.
Qed.

Lemma for_record_in_run records :
  ∀ start end_ st,
    for_record_in records (loop_body start end_) st
    = (Return (),
       {| logs := logs st ++ (generating_entry <$> records);
          dag :=
            {| dag_id := dag_id (dag st);
               dag_default_args := dag_default_args (dag st);
               schedule_interval := schedule_interval (dag st);
               tasks := tasks (dag st) ++ (records ≫= chain);
               edges :=
                 edges (dag st)
                 ++ chains_edges start end_ (length (tasks (dag st)))
                      (length records) |} |}).
Proof.
  induction records as [|record records IH]; intros start end_ st.
  - destruct st as [log [id args schedule ts es]]. simpl.
    by rewrite !app_nil_r.
  - change (for_record_in (record :: records) (loop_body start end_) st)
      with (match loop_body start end_ record st with
            | (Return _, st') => for_record_in records (loop_body start end_) st'
            | (Raise exc, st') => (Raise exc, st')
            end).
    rewrite loop_body_run, IH. simpl.
    rewrite length_app. simpl. rewrite <- !app_assoc. reflexivity.
Qed.

Lemma load_run e log path :
  configured e path →
  load e log
  = match
      read_table_list (fs e) path
        {| logs := log;
           dag :=
             {| dag_id := "composer_sample_bq_copy_across_locations";
                dag_default_args := default_args (now e);
                schedule_interval := None;
                tasks := [start_task; end_task];
                edges := [] |} |}
    with
    | (Return (Some records), st) => for_record_in records (loop_body 0 1) st
    | (Return None, st) => (Raise TypeError, st)
    | (Raise exc, st) => (Raise exc, st)
    end.
Proof.
  intros Hpath. unfold configured in Hpath.
  unfold load, dag_body, Variable_get. rewrite Hpath.
  unfold mbind, M_bind, mret, M_ret, new_task. simpl.
  destruct (read_table_list _ _ _) as [[[records|]|exc] st]; reflexivity.
Qed.

(** ** The shape of the graph *)

Lemma elem_of_chains_edges start end_ n :
  ∀ h a b,
    (a, b) ∈ chains_edges start end_ h n
    ↔ ∃ k, k < n ∧ (a, b) ∈ chain_edges start end_ (h + 3 * k).
Proof.
  induction n as [|n IH]; intros h a b; cbn [chains_edges].
  - split; [by intros ?%elem_of_nil|intros (k & ? & _); lia].
  - rewrite elem_of_app, IH. split.
    + intros [Hin|(k & Hk & Hin)].
      * exists 0. split; [lia|]. by replace (h + 3 * 0) with h by lia.
      * exists (S k). split; [lia|].
        by replace (h + 3 * S k) with (h + 3 + 3 * k) by lia.
    + intros ([|k] & Hk & Hin).
      * left. by replace (h + 3 * 0) with h in Hin by lia.
      * right. exists k. split; [lia|].
        by replace (h + 3 * S k) with (h + 3 + 3 * k) in Hin by lia.
Qed.




(** Loading a well-formed file: the final state, in full. *)
Lemma load_well_formed e log path contents rows :
  configured e path →
  fs e path = Opened contents →
  well_formed contents rows →
  ∃ records,
    Forall2 row_record rows records ∧
    load e log
    = (Return (),
       {| logs :=
            (log ++ reading_entry path :: (info ∘ RowMessage <$> rows))
            ++ (generating_entry <$> records);
          dag :=
            {| dag_id := "composer_sample_bq_copy_across_locations";
               dag_default_args := default_args (now e);
               schedule_interval := None;
               tasks := start_task :: end_task :: (records ≫= chain);
               edges := chains_edges 0 1 2 (length records) |} |}).
Proof.
  intros Hpath Hopen Hwf. rewrite (load_run _ _ _ Hpath).
  destruct (read_table_list_well_formed (fs e) path contents rows
              {| logs := log;
                 dag :=
                   {| dag_id := "composer_sample_bq_copy_across_locations";
                      dag_default_args := default_args (now e);
                      schedule_interval := None;
                      tasks := [start_task; end_task];
                      edges := [] |} |} Hopen Hwf)
    as (records & Hrec & ->).
  exists records. split; [done|]. by rewrite for_record_in_run.
Qed.

(** Loading any file the path is configured to: outcome, tasks and edges
    are determined by the outcome of the read. *)
Lemma load_graph e log path st :
  configured e path →
  let r := (read_table_list (fs e) path st).1 in
  (load e log).1
  = match r with
    | Return (Some _) => Return ()
    | Return None => Raise TypeError
    | Raise exc => Raise exc
    end
  ∧ tasks (dag (load e log).2)
    = start_task :: end_task :: (records_of r ≫= chain)
  ∧ edges (dag (load e log).2)
    = chains_edges 0 1 2 (length (records_of r)).
Proof.
  intros Hpath r. rewrite (load_run _ _ _ Hpath).
  set (st0 := {| logs := log; dag := _ |}).
  assert (Hr : r = (read_table_list (fs e) path st0).1)
    by by apply read_table_list_outcome.
  pose proof (read_table_list_dag (fs e) path st0) as Hdag.
  destruct (read_table_list (fs e) path st0) as [r0 st']. simpl in *.
  subst r0. destruct r as [[records|]|exc]; simpl.
  - rewrite for_record_in_run, Hdag. by simpl.
  - by rewrite Hdag.
  - by rewrite Hdag.
Qed.



(** C2 (as amended). For a file with a header row and no data rows the
    graph has exactly the two sentinel tasks [start] and [end] and no
    edge. *)
Theorem C2_header_only_graph e log path header :
  configured e path →
  fs e path = Opened (readable [header]) →
  ∃ st,
    load e log = (Return (), st)
    ∧ tasks (dag st) = [start_task; end_task]
    ∧ task_ids (dag st) = ["start"; "end"]
    ∧ edges (dag st) = [].
Proof.
  intros Hpath Hopen.
  destruct (load_well_formed e log path _ [] Hpath Hopen)
    as (records & Hrec & Hload).
  { exists header. by split. }
  apply Forall2_nil_inv_l in Hrec as ->.
  eexists. split; [exact Hload|]. by simpl.
Qed.

Lemma C2_witness :
  ∃ st,
    load (scenario_env "/home/airflow/gcs/data/header_only.csv" 0) []
    = (Return (), st)
    ∧ tasks (dag st) = [start_task; end_task]
    ∧ task_ids (dag st) = ["start"; "end"]
    ∧ edges (dag st) = [].
Proof.
  apply (C2_header_only_graph
           (scenario_env "/home/airflow/gcs/data/header_only.csv" 0) []
           "/home/airflow/gcs/data/header_only.csv" ["source"; "dest"]);
    reflexivity.
Defined.

(** C2 as stated fails: with a header-only file the loop body, which is
    the only place edges are declared, never runs, so there is no edge
    from [start] (handle 0) to [end] (handle 1). *)
Lemma C2_counterexample :
  scenario_fs "/home/airflow/gcs/data/header_only.csv"
  = Opened (readable [["source"; "dest"]])
  ∧ ¬ ("start", "end")
      ∈ edge_ids
          (dag (load (scenario_env "/home/airflow/gcs/data/header_only.csv" 0)
                  []).2).
Proof.
  split; [reflexivity|].
  intros Hedge. vm_compute in Hedge. by apply elem_of_nil in Hedge.
Qed.

(** ** Task identifiers *)

Lemma startswith_empty s : startswith s "" = true.
Proof. by destruct s. Qed.

Lemma replace_colon s :
  replace s ":" "_"
  = String.string_of_list_ascii (colon_to_underscore <$> String.list_ascii_of_string s).
Proof.
  unfold replace. induction s as [|c s IH]; [done|].
  cbn [replace_from startswith String.list_ascii_of_string fmap list_fmap
       String.string_of_list_ascii].
  unfold colon_to_underscore at 1.
  destruct (decide (":"%char = c)) as [<-|Hne].
  - rewrite decide_True, startswith_empty by done. simpl. by rewrite IH.
  - rewrite decide_False by congruence. by rewrite IH.
Qed.

Lemma contains_char_append c s1 s2 :
  contains_char c (s1 +:+ s2) = contains_char c s1 || contains_char c s2.
Proof.
  induction s1 as [|c1 s1 IH]; [done|]. simpl.
  by destruct (decide (c = c1)).
Qed.

Lemma replace_colon_free s : contains_char ":" (replace s ":" "_") = false.
Proof.
  rewrite replace_colon. induction s as [|c s IH]; [done|]. simpl.
  rewrite decide_False; [exact IH|].
  unfold colon_to_underscore. case_decide; congruence.
Qed.

(** C4. Whatever the table identifiers of a record are (in particular
    when they contain colons), the identifiers of its three tasks are the
    table identifier with each colon turned into an underscore, followed
    by the task's suffix; none of them contains a colon. *)
Theorem C4_task_ids_colon_free (table_source table_dest : string) :
  let sanitised s :=
    String.string_of_list_ascii
      ((λ c, if decide (c = ":"%char) then "_"%char else c)
         <$> String.list_ascii_of_string s) in
  task_id (BQ_to_GCS table_source) = sanitised table_source +:+ "_BQ_to_GCS"
  ∧ task_id (GCS_to_GCS table_source)
    = sanitised table_source +:+ "_GCS_to_GCS"
  ∧ task_id (GCS_to_BQ table_source table_dest)
    = sanitised table_dest +:+ "_GCS_to_BQ"
  ∧ contains_char ":" (task_id (BQ_to_GCS table_source)) = false
  ∧ contains_char ":" (task_id (GCS_to_GCS table_source)) = false
  ∧ contains_char ":" (task_id (GCS_to_BQ table_source table_dest)) = false.
Proof.
  intros sanitised. simpl task_id.
  rewrite !contains_char_append, !replace_colon_free, !replace_colon.
  by split_and!.
Qed.



(** C6. The records and the graph are determined by the file contents
    alone.  Two runs that open the same contents (whatever the path is
    called, whatever was logged before, whatever the clock says) return
    the same outcome from [read_table_list], hence equal record lists, and
    load the same graph: same tasks, same identifiers, same edges. *)
Theorem C6_deterministic e1 e2 log1 log2 path1 path2 st1 st2 :
  configured e1 path1 →
  configured e2 path2 →
  fs e1 path1 = fs e2 path2 →
  (read_table_list (fs e1) path1 st1).1 = (read_table_list (fs e2) path2 st2).1
  ∧ (load e1 log1).1 = (load e2 log2).1
  ∧ tasks (dag (load e1 log1).2) = tasks (dag (load e2 log2).2)
  ∧ edges (dag (load e1 log1).2) = edges (dag (load e2 log2).2)
  ∧ task_ids (dag (load e1 log1).2) = task_ids (dag (load e2 log2).2)
  ∧ edge_ids (dag (load e1 log1).2) = edge_ids (dag (load e2 log2).2).
Proof.
  intros Hpath1 Hpath2 Hsame.
  pose proof (read_table_list_outcome _ _ st1 _ _ st2 Hsame) as Hread.
  destruct (load_graph e1 log1 path1 st1 Hpath1) as (Hout1 & Htasks1 & Hedges1).
  destruct (load_graph e2 log2 path2 st2 Hpath2) as (Hout2 & Htasks2 & Hedges2).
  simpl in *. rewrite Hread in Hout1, Htasks1, Hedges1.
  assert (Htasks :
    tasks (dag (load e1 log1).2) = tasks (dag (load e2 log2).2))
    by congruence.
  assert (Hedges :
    edges (dag (load e1 log1).2) = edges (dag (load e2 log2).2))
    by congruence.
  split_and!; try congruence.
  - unfold task_ids. by rewrite Htasks.
  - unfold edge_ids, id_of. by rewrite Htasks, Hedges.
Qed.

Lemma C6_witness :
  edge_ids
    (dag (load (scenario_env "/home/airflow/gcs/data/table_list.csv" 0) []).2)
  = edge_ids
      (dag (load (scenario_env "/home/airflow/gcs/data/table_list.csv"
                    1700000000)
              [reading_entry "earlier"]).2).
Proof.
  apply (C6_deterministic
           (scenario_env "/home/airflow/gcs/data/table_list.csv" 0)
           (scenario_env "/home/airflow/gcs/data/table_list.csv" 1700000000)
           [] [reading_entry "earlier"]
           "/home/airflow/gcs/data/table_list.csv"
           "/home/airflow/gcs/data/table_list.csv" fresh_state fresh_state);
    reflexivity.
Defined.

(** ** Supporting facts on the loaded graph *)

Lemma rank_chain k x : x < 3 → rank (2 + 3 * k + x) = 1 + x.
Proof.
  intros Hx. change (rank (2 + 3 * k + x)) with (1 + (2 + 3 * k + x - 2) mod 3).
  replace (2 + 3 * k + x - 2) with (x + k * 3) by lia.
  by rewrite Nat.Div0.mod_add, Nat.mod_small.
Qed.

(** Every edge goes up in [rank]: the graph is acyclic, whatever the file
    holds. *)
Lemma chains_edges_ranked n a b :
  (a, b) ∈ chains_edges 0 1 2 n → rank a < rank b.
Proof.
  intros (k & _ & Hin)%elem_of_chains_edges.
  unfold chain_edges in Hin. rewrite !elem_of_cons, elem_of_nil in Hin.
  pose proof (rank_chain k 0 ltac:(lia)) as R0.
  pose proof (rank_chain k 1 ltac:(lia)) as R1.
  pose proof (rank_chain k 2 ltac:(lia)) as R2.
  destruct Hin as [Heq|[Heq|[Heq|[Heq|[]]]]].
  - assert (a = 0 ∧ b = 2 + 3 * k + 0) as [-> ->] by (injection Heq; lia).
    rewrite R0. simpl. lia.
  - assert (a = 2 + 3 * k + 0 ∧ b = 2 + 3 * k + 1) as [-> ->]
      by (injection Heq; lia).
    rewrite R0, R1. lia.
  - assert (a = 2 + 3 * k + 1 ∧ b = 2 + 3 * k + 2) as [-> ->]
      by (injection Heq; lia).
    rewrite R1, R2. lia.
  - assert (a = 2 + 3 * k + 2 ∧ b = 1) as [-> ->] by (injection Heq; lia).
    rewrite R2. simpl. lia.
Qed.

Lemma loaded_graph_acyclic e log path a b :
  configured e path →
  (a, b) ∈ edges (dag (load e log).2) → rank a < rank b.
Proof.
  intros Hpath.
  destruct (load_graph e log path fresh_state Hpath) as (_ & _ & ->).
  apply chains_edges_ranked.
Qed.

(** No task identifier of a loaded graph contains a colon, whatever the
    file holds. *)
Lemma loaded_task_ids_colon_free e log path :
  configured e path →
  Forall (λ id, contains_char ":" id = false) (task_ids (dag (load e log).2)).
Proof.
  intros Hpath. unfold task_ids.
  destruct (load_graph e log path fresh_state Hpath) as (_ & -> & _).
  apply Forall_fmap. do 2 (constructor; [done|]).
  apply Forall_bind, Forall_forall. intros r _.
  repeat constructor; simpl;
    by rewrite contains_char_append, replace_colon_free.
Qed.

(** ** When task identifiers coincide *)










(** The script does no de-duplication: two rows whose source tables differ
    only by a colon give the same export and relocate identifiers. *)
Example clash_task_ids :
  task_ids (dag (load (scenario_env "/home/airflow/gcs/data/clash.csv" 0) []).2)
  = ["start"; "end";
     "proj_ds.t_BQ_to_GCS"; "proj_ds.t_GCS_to_GCS"; "proj_ds.a_GCS_to_BQ";
     "proj_ds.t_BQ_to_GCS"; "proj_ds.t_GCS_to_GCS"; "proj_ds.b_GCS_to_BQ"].
Proof. vm_compute. reflexivity. Qed.

(** ** [images/get.py]: the wrappers *)

(** C9. Each wrapper constructs a client and returns exactly what the
    client's call returns for the same arguments: [get_image] that of
    [get(project=project_id, image=image_name)], [get_image_from_family]
    that of [get_from_family(project=project, family=family)].  The
    result, a raised exception included, and the state the client leaves
    behind are passed on unchanged; an exception raised by the client's
    constructor is passed on as well. *)
Theorem C9_pass_through
    {world ImagesClient_t Image : Type}
    (ImagesClient : world → outcome ImagesClient_t * world)
    (get_from_family_method :
       ImagesClient_t → Images.get_from_family_kwargs → world
       → outcome Image * world)
    (get_method :
       ImagesClient_t → Images.get_kwargs → world → outcome Image * world)
    (a b : string) (w w' : world) (constructed : outcome ImagesClient_t) :
  ImagesClient w = (constructed, w') →
  Images.get_image ImagesClient get_method a b w
  = match constructed with
    | Return image_client =>
        get_method image_client
          {| Images.get_project := a; Images.get_image_arg := b |} w'
    | Raise exc => (Raise exc, w')
    end
  ∧ Images.get_image_from_family ImagesClient get_from_family_method a b w
    = match constructed with
      | Return image_client =>
          get_from_family_method image_client
            {| Images.gff_project := a; Images.gff_family := b |} w'
      | Raise exc => (Raise exc, w')
      end.
Proof.
  intros Hclient. unfold Images.get_image, Images.get_image_from_family.
  rewrite Hclient. by destruct constructed.
Qed.

Lemma C9_witness :
  Images.get_image demo_ImagesClient demo_get "debian-cloud" "debian-11-v1" []
  = (Return "debian-cloud/images/debian-11-v1",
     ["debian-cloud/images/debian-11-v1"])
  ∧ Images.get_image_from_family demo_ImagesClient demo_get_from_family
      "debian-cloud" "no-such-family" []
    = (Raise (KeyError "no-such-family"), []).
Proof.
  split.
  - apply (C9_pass_through demo_ImagesClient demo_get_from_family demo_get
             "debian-cloud" "debian-11-v1" [] [] (Return ()) eq_refl).
  - apply (C9_pass_through demo_ImagesClient demo_get_from_family demo_get
             "debian-cloud" "no-such-family" [] [] (Return ()) eq_refl).
Defined.

(** * Further properties of the scripts *)

(** ** [read_table_list]: every way the read can end *)

Lemma for_row_in_logs csv_reader :
  ∀ table_list st,
    ∃ entries,
      (for_row_in csv_reader table_list st).2 = add_logs entries st
      ∧ Forall (λ entry, log_level entry = INFO) entries.
Proof.
  induction csv_reader as [|row rest IH|exc]; intros table_list st.
  - exists []. by rewrite add_logs_nil.
  - destruct row as [|row_0 [|row_1 extra]].
    + exists [info (RowMessage [])]. split; [done|by repeat constructor].
    + exists [info (RowMessage [row_0])]. split; [done|by repeat constructor].
    + simpl. run. fold (info (RowMessage (row_0 :: row_1 :: extra))).
      rewrite add_logs_info.
      destruct (IH (table_list ++ [{| table_source := row_0; table_dest := row_1 |}])
                  (add_logs [info (RowMessage (row_0 :: row_1 :: extra))] st))
        as (entries & -> & Hinfo).
      exists (info (RowMessage (row_0 :: row_1 :: extra)) :: entries).
      split; [by rewrite add_logs_app|by constructor].
  - exists []. by rewrite add_logs_nil.
Qed.

(** A reader that fails with [exc] after rows that were read. *)
Lemma read_table_list_fails_after fs path rows exc st :
  fs path = Opened (yield_all rows (Fails exc)) →
  Forall two_fields (tail rows) →
  read_table_list fs path st
  = if is_IOError exc
    then (Return None,
          add_logs
            ((reading_entry path :: (info ∘ RowMessage <$> tail rows))
             ++ [error_entry path exc]) st)
    else (Raise exc,
          add_logs (reading_entry path :: (info ∘ RowMessage <$> tail rows)) st).
Proof.
  intros Hopen Hrows. rewrite (read_table_list_opened _ _ _ _ Hopen).
  destruct rows as [|header rows]; simpl in *.
  - by destruct (is_IOError exc).
  - destruct (for_row_in_two_fields rows Hrows) as (records & _ & ->).
    simpl. destruct (is_IOError exc); by rewrite !add_logs_app.
Qed.

Lemma yield_all_app rows1 rows2 rest :
  yield_all (rows1 ++ rows2) rest = yield_all rows1 (yield_all rows2 rest).
Proof. induction rows1 as [|row rows1 IH]; simpl; [done|by rewrite IH]. Qed.

(** X1. When the configured file cannot be opened or read (an [IOError]),
    [read_table_list] hands [None] to the module, the loop over it raises
    [TypeError], and loading stops with the two sentinels only and no
    edge; the last log entry is the [ERROR] entry of the failed read. *)
Theorem X1_unreadable_file_load_raises_TypeError e log path exc :
  configured e path →
  is_IOError exc = true →
  (fs e path = OpenFails exc
   ∨ ∃ rows, fs e path = Opened (yield_all rows (Fails exc))
             ∧ Forall (λ row, 2 ≤ length row) (tail rows)) →
  ∃ st,
    load e log = (Raise TypeError, st)
    ∧ tasks (dag st) = [start_task; end_task]
    ∧ edges (dag st) = []
    ∧ last (logs st)
      = Some {| log_level := ERROR;
                log_msg := Text ("Error opening table_list_file " +:+ path +:+ ": ");
                log_args := [exc] |}.
Proof.
  intros Hpath Hio Hfail. rewrite (load_run _ _ _ Hpath).
  destruct Hfail as [Hopen|(rows & Hopen & Hrows)].
  - rewrite (read_table_list_open_fails _ _ _ _ Hopen), Hio.
    eexists. split; [reflexivity|]. simpl. split_and!; try done.
    apply last_Some. exists (log ++ [reading_entry path]).
    by rewrite <- app_assoc.
  - rewrite (read_table_list_fails_after _ _ _ _ _ Hopen Hrows), Hio.
    eexists. split; [reflexivity|]. simpl. split_and!; try done.
    apply last_Some.
    exists (log ++ reading_entry path :: (info ∘ RowMessage <$> tail rows)).
    by rewrite <- !app_assoc.
Qed.

Lemma X1_witness :
  ∃ st,
    load (failing_env "/data/disk_error.csv") [] = (Raise TypeError, st)
    ∧ tasks (dag st) = [start_task; end_task]
    ∧ edges (dag st) = []
    ∧ last (logs st)
      = Some {| log_level := ERROR;
                log_msg :=
                  Text ("Error opening table_list_file "
                        +:+ "/data/disk_error.csv" +:+ ": ");
                log_args := [OSError] |}.
Proof.
  apply (X1_unreadable_file_load_raises_TypeError
           (failing_env "/data/disk_error.csv") [] "/data/disk_error.csv"
           OSError eq_refl eq_refl).
  right. exists [["source"; "dest"]; ["proj:ds.src"; "proj:ds.dst"]].
  split; [reflexivity|]. repeat constructor.
Defined.

(** X2. When the orchestrator has no variable [table_list_file_path],
    loading raises [KeyError] for that key right after the two sentinels
    were created: nothing is read or logged, and no chain is built. *)
Theorem X2_missing_variable_raises_KeyError e log :
  variables e !! "table_list_file_path" = None →
  load e log
  = (Raise (KeyError "table_list_file_path"),
     {| logs := log;
        dag :=
          {| dag_id := "composer_sample_bq_copy_across_locations";
             dag_default_args := default_args (now e);
             schedule_interval := None;
             tasks := [start_task; end_task];
             edges := [] |} |}).
Proof.
  intros Hmissing. unfold load, dag_body, Variable_get. rewrite Hmissing.
  reflexivity.
Qed.

Lemma X2_witness :
  (load unconfigured_env []).1 = Raise (KeyError "table_list_file_path")
  ∧ logs (load unconfigured_env []).2 = [].
Proof.
  rewrite (X2_missing_variable_raises_KeyError unconfigured_env [] eq_refl).
  split; reflexivity.
Defined.



(** X4. In a readable file the first data row with fewer than two fields
    ends the read: the rows before it and the row itself are logged, in
    file order, the row being the last entry; the rows after it are
    neither read nor logged. *)
Theorem X4_short_row_is_last_logged fs path header good bad rest st :
  fs path = Opened (readable (header :: good ++ bad :: rest)) →
  Forall (λ row, 2 ≤ length row) good →
  length bad < 2 →
  read_table_list fs path st
  = (Raise IndexError,
     add_logs
       (reading_entry path :: (info ∘ RowMessage <$> good ++ [bad])) st).
Proof.
  intros Hopen Hgood Hbad.
  rewrite (read_table_list_opened _ _ _ _ Hopen). simpl.
  rewrite yield_all_app.
  destruct (for_row_in_two_fields good Hgood) as (records & _ & ->).
  rewrite fmap_app.
  destruct bad as [|row_0 [|row_1 extra]]; [| |simpl in Hbad; lia];
    simpl; run; unfold add_logs; simpl; by rewrite <- !app_assoc.
Qed.

Lemma X4_witness :
  read_table_list failing_fs "/data/late_short_row.csv" fresh_state
  = (Raise IndexError,
     add_logs
       (reading_entry "/data/late_short_row.csv"
        :: (info ∘ RowMessage <$> [["proj:ds.a"; "proj:ds.b"]] ++ [["proj:ds.c"]]))
       fresh_state).
Proof.
  apply (X4_short_row_is_last_logged failing_fs "/data/late_short_row.csv"
           ["source"; "dest"] [["proj:ds.a"; "proj:ds.b"]] ["proj:ds.c"]
           [["proj:ds.d"; "proj:ds.e"]] fresh_state).
  - reflexivity.
  - repeat constructor.
  - simpl. lia.
Defined.

Lemma for_row_in_first_two rows1 rows2 :
  Forall2 (λ row1 row2, take 2 row1 = take 2 row2) rows1 rows2 →
  ∀ table_list st1 st2,
    (for_row_in (readable rows1) table_list st1).1
    = (for_row_in (readable rows2) table_list st2).1.
Proof.
  unfold readable.
  induction 1 as [|row1 row2 rows1 rows2 Hrow _ IH]; intros table_list st1 st2;
    [done|].
  destruct row1 as [|a1 [|b1 extra1]], row2 as [|a2 [|b2 extra2]];
    simpl in Hrow; simplify_eq; try done.
  simpl. run. apply IH.
Qed.

(** X5. Only the first two fields of the data rows matter: two readable
    files whose data rows agree, row by row, on their first two fields
    give the same outcome (the same record list, or the same exception),
    whatever their header rows and their further columns hold. *)
Theorem X5_only_first_two_fields_matter
    fs1 path1 header1 rows1 st1 fs2 path2 header2 rows2 st2 :
  fs1 path1 = Opened (readable (header1 :: rows1)) →
  fs2 path2 = Opened (readable (header2 :: rows2)) →
  Forall2 (λ row1 row2, take 2 row1 = take 2 row2) rows1 rows2 →
  (read_table_list fs1 path1 st1).1 = (read_table_list fs2 path2 st2).1.
Proof.
  intros Hopen1 Hopen2 Hrows.
  rewrite (read_table_list_opened _ _ _ _ Hopen1),
    (read_table_list_opened _ _ _ _ Hopen2). simpl.
  pose proof (for_row_in_first_two rows1 rows2 Hrows []
                (add_logs [reading_entry path1] st1)
                (add_logs [reading_entry path2] st2)) as Hout.
  unfold readable in Hout.
  destruct (for_row_in (yield_all rows1 Exhausted) [] _)
    as [[table_list1|exc1] st1'],
    (for_row_in (yield_all rows2 Exhausted) [] _)
    as [[table_list2|exc2] st2']; simpl in Hout; simplify_eq; [done|].
  by destruct (is_IOError exc2).
Qed.

Lemma X5_witness :
  (read_table_list failing_fs "/data/wide.csv" fresh_state).1
  = (read_table_list failing_fs "/data/narrow.csv" fresh_state).1.
Proof.
  apply (X5_only_first_two_fields_matter
           failing_fs "/data/wide.csv" ["src"; "dst"; "comment"]
           [["proj:ds.src"; "proj:ds.dst"; "nightly"; "x"]] fresh_state
           failing_fs "/data/narrow.csv" ["source"; "dest"]
           [["proj:ds.src"; "proj:ds.dst"]] fresh_state).
  - reflexivity.
  - reflexivity.
  - repeat constructor.
Defined.

(** X6. Whatever the file system does, [read_table_list] leaves the DAG
    alone and only appends to the log, the start message first.  It
    returns [None] exactly when it has logged an [ERROR] entry, which is
    then the last entry and carries the path and the [IOError] caught;
    in every other case all the entries it adds are [INFO] entries. *)
Theorem X6_read_log_and_result fs path st :
  ∃ entries,
    Forall (λ entry, log_level entry = INFO) entries
    ∧ ((∃ exc,
          is_IOError exc = true
          ∧ read_table_list fs path st
            = (Return None,
               add_logs
                 ((reading_entry path :: entries) ++ [error_entry path exc])
                 st))
       ∨ (∃ r,
            r ≠ Return None
            ∧ read_table_list fs path st
              = (r, add_logs (reading_entry path :: entries) st))).
Proof.
  destruct (fs path) as [exc|contents] eqn:Hopen.
  - exists []. split; [done|].
    rewrite (read_table_list_open_fails _ _ _ _ Hopen).
    destruct (is_IOError exc) eqn:Hio;
        [left; exists exc; split; [done|reflexivity]
        |right; eexists; split; [|reflexivity]; done].
  - rewrite (read_table_list_opened _ _ _ _ Hopen).
    destruct contents as [|header rest|exc].
    + exists []. split; [done|]. right. eexists. split; [|reflexivity]. done.
    + destruct (for_row_in_logs rest [] (add_logs [reading_entry path] st))
        as (entries & Hst & Hinfo).
      exists entries. split; [done|].
      destruct (for_row_in rest [] _) as [[table_list|exc] st'];
        simpl in Hst; subst st'; simpl.
      * right. eexists. split; [|by rewrite add_logs_app]. done.
      * destruct (is_IOError exc) eqn:Hio.
        -- left. exists exc. split; [done|]. by rewrite !add_logs_app.
        -- right. eexists. split; [|by rewrite add_logs_app]. done.
    + exists []. split; [done|].
      destruct (is_IOError exc) eqn:Hio;
        [left; exists exc; split; [done|reflexivity]
        |right; eexists; split; [|reflexivity]; done].
Qed.

(** ** The loaded graph, whatever the environment *)

(** Whatever the variables, the file system and the clock are, the loaded
    graph is the two sentinels followed by the chains of some records. *)
Lemma load_shape e log :
  ∃ records,
    tasks (dag (load e log).2) = start_task :: end_task :: (records ≫= chain)
    ∧ edges (dag (load e log).2) = chains_edges 0 1 2 (length records)
    ∧ ((load e log).1 = Return () ∨ records = []).
Proof.
  destruct (variables e !! "table_list_file_path") as [path|] eqn:Hpath.
  - destruct (load_graph e log path fresh_state Hpath) as (Hout & Htasks & Hedges).
    exists (records_of (read_table_list (fs e) path fresh_state).1).
    split; [done|]. split; [done|].
    destruct (read_table_list (fs e) path fresh_state).1 as [[records|]|exc];
      simpl in *; auto.
  - exists []. unfold load, dag_body, Variable_get. rewrite Hpath. simpl.
    split_and!; auto.
Qed.



Lemma tc_edges_ranked n a b :
  tc (λ x y, (x, y) ∈ chains_edges 0 1 2 n) a b → rank a < rank b.
Proof.
  induction 1 as [a b Hedge|a b c Hedge _ IH].
  - by apply chains_edges_ranked in Hedge.
  - apply chains_edges_ranked in Hedge. lia.
Qed.

(** X8. The loaded graph is acyclic in every environment: following
    dependencies from a task never leads back to it. *)
Theorem X8_loaded_graph_acyclic e log a :
  ¬ tc (edge_rel (dag (load e log).2)) a a.
Proof.
  destruct (load_shape e log) as (records & _ & Hedges & _).
  unfold edge_rel. rewrite Hedges. intros Hloop%tc_edges_ranked. lia.
Qed.








(** X12. In every environment, no task identifier of the loaded graph
    contains a colon. *)
Theorem X12_loaded_task_ids_colon_free e log :
  Forall (λ id, contains_char ":" id = false) (task_ids (dag (load e log).2)).
Proof.
  unfold task_ids. destruct (load_shape e log) as (records & -> & _).
  apply Forall_fmap. do 2 (constructor; [done|]).
  apply Forall_bind, Forall_forall. intros r _.
  repeat constructor; simpl;
    by rewrite contains_char_append, replace_colon_free.
Qed.

(** ** When the task identifiers of a graph are unique *)





(** ** Independence from the state, and the shape of the chains *)

Lemma for_row_in_state_independent csv_reader :
  ∀ table_list,
    ∃ r entries,
      ∀ st, for_row_in csv_reader table_list st = (r, add_logs entries st).
Proof.
  induction csv_reader as [|row rest IH|exc]; intros table_list.
  - exists (Return table_list), []. intros st. by rewrite add_logs_nil.
  - destruct row as [|row_0 [|row_1 extra]].
    + by exists (Raise IndexError), [info (RowMessage [])].
    + by exists (Raise IndexError), [info (RowMessage [row_0])].
    + destruct (IH (table_list
                      ++ [{| table_source := row_0; table_dest := row_1 |}]))
        as (r & entries & Hrun).
      exists r, (info (RowMessage (row_0 :: row_1 :: extra)) :: entries).
      intros st. simpl. run.
      fold (info (RowMessage (row_0 :: row_1 :: extra))).
      by rewrite add_logs_info, Hrun, add_logs_app.
  - exists (Raise exc), []. intros st. by rewrite add_logs_nil.
Qed.

(** X14. What a read returns or raises, and the entries it logs, depend
    on the file system and the path only: started from any log and any
    DAG, the same call gives the same outcome and appends the same
    entries, leaving everything else in the state as it was. *)
Theorem X14_read_independent_of_state fs path :
  ∃ r entries,
    ∀ st, read_table_list fs path st = (r, add_logs entries st).
Proof.
  destruct (fs path) as [exc|contents] eqn:Hopen.
  - destruct (is_IOError exc) eqn:Hio; eexists _, _; intros st;
      rewrite (read_table_list_open_fails _ _ _ _ Hopen), Hio; reflexivity.
  - destruct contents as [|header rest|exc].
    + eexists _, _. intros st.
      by rewrite (read_table_list_opened _ _ _ _ Hopen).
    + destruct (for_row_in_state_independent rest []) as (r & entries & Hrun).
      destruct r as [table_list|exc]; [|destruct (is_IOError exc) eqn:Hio];
        eexists _, _; intros st;
        rewrite (read_table_list_opened _ _ _ _ Hopen), Hrun; simpl;
        rewrite ?Hio, !add_logs_app; reflexivity.
    + destruct (is_IOError exc) eqn:Hio; eexists _, _; intros st;
        rewrite (read_table_list_opened _ _ _ _ Hopen); simpl;
        rewrite Hio; reflexivity.
Qed.

